(** * Taskify: authentication bootstrap, landing dispatch and route table

    A shallow embedding of [src/App.tsx]: the [initAuth] effect of the
    [App] component, the [DashboardRedirect] effect, and the route
    element registered for ['/auth'].

    JavaScript objects are finite maps from property names to values,
    [localStorage] is a finite map from keys to strings, and the body of
    [initAuth] is written in a state-and-exception monad over the
    browser state it touches: the redux store, [localStorage], the
    verification requests it issues and the console. *)

From stdpp Require Import base option list strings gmap fin_maps.

#[local] Set Warnings "-clear-no-such-hyp".

Open Scope string_scope.

(** ** JavaScript values and objects *)

Inductive JsVal :=
| JNull
| JBool (b : bool)
| JNum (n : Z)
| JStr (s : string).

#[global] Instance JsVal_eq_dec : EqDecision JsVal.
Proof. solve_decision. Defined.

(** A user or organisation record as returned by the verification
    endpoints: an object with own enumerable properties. *)
Abbreviation UserObj := (gmap string JsVal).

(** [const { password, ...userWithoutPassword } = user]: the rest
    pattern copies every own property but [password]. *)
Definition withoutPassword (user : UserObj) : UserObj :=
  delete "password" user.

(** [user.role], as read by the [switch] of [DashboardRedirect]. *)
Definition role_of (user : UserObj) : option JsVal := user !! "role".

(** Truthiness of what [localStorage.getItem] returns: [null] and the
    empty string are falsy, every other string is truthy. *)
Definition truthy (token : option string) : bool :=
  match token with
  | None => false
  | Some t => negb (String.eqb t "")
  end.

(** ** The auth slice of the redux store *)

Record AuthState := mkAuthState {
  user : option UserObj;
  token : option string;
  isAuthenticated : bool;
  isLoading : bool
}.

Record Credentials := mkCredentials {
  cred_user : UserObj;
  cred_token : string
}.

Inductive AuthAction :=
| setCredentials (payload : Credentials)
| finishInitialLoad
| logout.

(** Modelled from the spec: the store's state at process start.
    [redux/reducers/authSlice] is not among the sources; the spec has the
    session "created empty at process start; loading=true until the
    bootstrap sequence completes". *)
Definition initialState : AuthState :=
  {| user := None; token := None; isAuthenticated := false; isLoading := true |}.

(** Modelled from the spec: the reducer of [redux/reducers/authSlice],
    which is not among the sources.  The spec enumerates the mutating
    actions [setCredentials], [finishInitialLoad] and [logout]:
    acceptance stores the identity and the original token and ends the
    loading phase; [finishInitialLoad] only ends the loading phase (it
    is what the bootstrap dispatches on an already trusted session,
    which the spec calls a no-op); [logout] resets the session to
    empty. *)
Definition authReducer (s : AuthState) (a : AuthAction) : AuthState :=
  match a with
  | setCredentials p =>
      {| user := Some (cred_user p); token := Some (cred_token p);
         isAuthenticated := true; isLoading := false |}
  | finishInitialLoad =>
      {| user := user s; token := token s;
         isAuthenticated := isAuthenticated s; isLoading := false |}
  | logout =>
      {| user := None; token := None;
         isAuthenticated := false; isLoading := isLoading s |}
  end.

(** The states the store can be in: the initial one and whatever the
    enumerated actions make of it. *)
Inductive reachable : AuthState → Prop :=
| reach_init : reachable initialState
| reach_step s a : reachable s → reachable (authReducer s a).

(** ** The browser state touched by the bootstrap *)

Inductive Endpoint := VerifyUser | VerifyOrg.

#[global] Instance Endpoint_eq_dec : EqDecision Endpoint.
Proof. solve_decision. Defined.

(** What awaiting a verification request gives: the promise resolves
    with a record or with [null], or it rejects. *)
Inductive Response :=
| Resolved (r : option UserObj)
| Rejected (error : string).

(** One request: the endpoint, the token sent and what came back. *)
Record Call := mkCall {
  call_endpoint : Endpoint;
  call_token : string;
  call_response : Response
}.

Record World := mkWorld {
  store : AuthState;
  localStorage : gmap string string;
  dispatched : list AuthAction;
  network : list Call;
  console : list string
}.

(** ** A state-and-exception monad for [async] bodies

    A computation runs on a world and ends either normally or by
    throwing; the world at the moment of the throw is kept, as a
    [catch] block sees the effects made before it. *)

Inductive Completion (A : Type) :=
| Normal (a : A)
| Throw (error : string).
Arguments Normal {A} a.
Arguments Throw {A} error.

Definition Js (A : Type) : Type := World → World * Completion A.

#[global] Instance Js_ret : MRet Js := λ A a w, (w, Normal a).

#[global] Instance Js_bind : MBind Js := λ A B f m w,
  match m w with
  | (w', Normal a) => f a w'
  | (w', Throw e) => (w', Throw e)
  end.

Definition try_catch {A} (body : Js A) (handler : string → Js A) : Js A :=
  λ w, match body w with
       | (w', Normal a) => (w', Normal a)
       | (w', Throw e) => handler e w'
       end.

Definition getItem (key : string) : Js (option string) :=
  λ w, (w, Normal (localStorage w !! key)).

Definition removeItem (key : string) : Js unit :=
  λ w, (mkWorld (store w) (delete key (localStorage w))
                (dispatched w) (network w) (console w), Normal tt).

Definition dispatch (a : AuthAction) : Js unit :=
  λ w, (mkWorld (authReducer (store w) a) (localStorage w)
                (dispatched w ++ [a]) (network w) (console w), Normal tt).

Definition console_error (msg : string) : Js unit :=
  λ w, (mkWorld (store w) (localStorage w)
                (dispatched w) (network w) (console w ++ [msg]), Normal tt).

(** Awaiting a request: it is logged with its response, and a
    rejection is rethrown at the [await]. *)
Definition await (ep : Endpoint) (tok : string) (resp : Response)
  : Js (option UserObj) :=
  λ w, let w' := mkWorld (store w) (localStorage w) (dispatched w)
                         (network w ++ [mkCall ep tok resp]) (console w) in
       match resp with
       | Resolved r => (w', Normal r)
       | Rejected e => (w', Throw e)
       end.

Section Bootstrap.

(** The two endpoints of [api/fetch], which is not among the sources:
    whatever they answer for a token. *)
Variable verifyToken : string → Response.
Variable verifyOrgToken : string → Response.

(** [initAuth], the effect of [App] (lines 64-90).  [isAuthenticated]
    is the value selected from the store for the render that scheduled
    the effect. *)
Definition initAuth : Js unit :=
  λ w0,
  let isAuthenticated := isAuthenticated (store w0) in
  (token ← getItem "token";
   if truthy token && negb isAuthenticated then
     let tok := default "" token in
     try_catch
       (user ← await VerifyUser tok (verifyToken tok);
        user ← match user with
               | None => await VerifyOrg tok (verifyOrgToken tok)
               | Some _ => mret user
               end;
        match user with
        | Some u =>
            dispatch (setCredentials
                        (mkCredentials (withoutPassword u) tok))
        | None =>
            removeItem "token";;
            dispatch finishInitialLoad
        end)
       (λ error,
          console_error ("Auth initialization failed: " +:+ error);;
          removeItem "token";;
          dispatch finishInitialLoad)
   else dispatch finishInitialLoad) w0.

End Bootstrap.

(** A world in which nothing has happened yet. *)
Definition boot (s : AuthState) (ls : gmap string string) : World :=
  mkWorld s ls [] [] [].

(** Running the bootstrap from a session and a storage content. *)
Definition run (verifyToken verifyOrgToken : string → Response)
    (s : AuthState) (ls : gmap string string) : World * Completion unit :=
  initAuth verifyToken verifyOrgToken (boot s ls).

(** ** Outcomes and traces of a bootstrap run *)

(** What holds of every state of the store: an unauthenticated session
    carries neither identity nor token, an authenticated one has left
    the loading phase and carries an identity. *)
Definition consistent (s : AuthState) : Prop :=
  (isAuthenticated s = false → user s = None ∧ token s = None) ∧
  (isAuthenticated s = true → isLoading s = false ∧ is_Some (user s)).

(** The two ways a verifying run ends.  Acceptance: [setCredentials]
    is dispatched with the stripped record and the token, storage is
    left alone. *)
Definition accept (s : AuthState) (ls : gmap string string) (tok : string)
    (calls : list Call) (u : UserObj) : World * Completion unit :=
  (mkWorld (authReducer s (setCredentials (mkCredentials (withoutPassword u) tok)))
           ls [setCredentials (mkCredentials (withoutPassword u) tok)] calls [],
   Normal tt).

(** Rejection: the token is removed and [finishInitialLoad] is
    dispatched; [log] is what the [catch] block wrote, if it ran. *)
Definition reject (s : AuthState) (ls : gmap string string) (tok : string)
    (calls : list Call) (log : list string) : World * Completion unit :=
  (mkWorld (authReducer s finishInitialLoad) (delete "token" ls)
           [finishInitialLoad] calls log,
   Normal tt).

(** The [else] branch: [finishInitialLoad] and nothing else. *)
Definition skipped (s : AuthState) (ls : gmap string string)
  : World * Completion unit :=
  (mkWorld (authReducer s finishInitialLoad) ls [finishInitialLoad] [] [],
   Normal tt).

(** The guard of line 67 is open for [tok]. *)
Definition verifying (s : AuthState) (ls : gmap string string)
    (tok : string) : Prop :=
  ls !! "token" = Some tok ∧ tok ≠ "" ∧ isAuthenticated s = false.

(** The control paths of [initAuth] and where each one ends. *)
Inductive path (verifyToken verifyOrgToken : string → Response)
    (s : AuthState) (ls : gmap string string)
  : World * Completion unit → Prop :=
| path_skip :
    truthy (ls !! "token") && negb (isAuthenticated s) = false →
    path verifyToken verifyOrgToken s ls (skipped s ls)
| path_user tok u :
    verifying s ls tok →
    verifyToken tok = Resolved (Some u) →
    path verifyToken verifyOrgToken s ls
      (accept s ls tok [mkCall VerifyUser tok (Resolved (Some u))] u)
| path_org tok o :
    verifying s ls tok →
    verifyToken tok = Resolved None →
    verifyOrgToken tok = Resolved (Some o) →
    path verifyToken verifyOrgToken s ls
      (accept s ls tok [mkCall VerifyUser tok (Resolved None);
                        mkCall VerifyOrg tok (Resolved (Some o))] o)
| path_invalid tok :
    verifying s ls tok →
    verifyToken tok = Resolved None →
    verifyOrgToken tok = Resolved None →
    path verifyToken verifyOrgToken s ls
      (reject s ls tok [mkCall VerifyUser tok (Resolved None);
                        mkCall VerifyOrg tok (Resolved None)] [])
| path_user_rejected tok e :
    verifying s ls tok →
    verifyToken tok = Rejected e →
    path verifyToken verifyOrgToken s ls
      (reject s ls tok [mkCall VerifyUser tok (Rejected e)]
              ["Auth initialization failed: " +:+ e])
| path_org_rejected tok e :
    verifying s ls tok →
    verifyToken tok = Resolved None →
    verifyOrgToken tok = Rejected e →
    path verifyToken verifyOrgToken s ls
      (reject s ls tok [mkCall VerifyUser tok (Resolved None);
                        mkCall VerifyOrg tok (Rejected e)]
              ["Auth initialization failed: " +:+ e]).

(** The fail-closed outcome: the token is gone from storage, the only
    action dispatched is [finishInitialLoad], the session has no
    identity and is not loading, and [initAuth] completed normally. *)
Definition fails_closed (ls : gmap string string)
    (r : World * Completion unit) : Prop :=
  localStorage r.1 = delete "token" ls ∧
  localStorage r.1 !! "token" = None ∧
  dispatched r.1 = [finishInitialLoad] ∧
  user (store r.1) = None ∧
  isAuthenticated (store r.1) = false ∧
  isLoading (store r.1) = false ∧
  r.2 = Normal tt.

(** Reading the request log of a run. *)
Definition rejected (c : Call) : bool :=
  match call_response c with
  | Rejected _ => true
  | Resolved _ => false
  end.

Definition returned_null (ep : Endpoint) (c : Call) : bool :=
  bool_decide (call_endpoint c = ep) &&
  match call_response c with
  | Resolved None => true
  | _ => false
  end.

(** Both endpoints were asked and both answered [null], or some request
    threw. *)
Definition unresolved (calls : list Call) : bool :=
  (existsb (returned_null VerifyUser) calls &&
   existsb (returned_null VerifyOrg) calls)
  || existsb rejected calls.

(** The record a run resolved the token to: the answer to its last
    request, when that is a record. *)
Definition resolved_identity (calls : list Call) : option UserObj :=
  c ← last calls;
  match call_response c with
  | Resolved r => r
  | Rejected _ => None
  end.

(** The endpoints asked, in order. *)
Definition asked (calls : list Call) : list Endpoint :=
  map call_endpoint calls.

(** ** [DashboardRedirect]: the landing dispatch *)

Record Navigation := mkNavigation {
  nav_to : string;
  nav_replace : bool
}.

(** What the effect of [DashboardRedirect] leaves behind: the calls of
    [navigate], the callbacks handed to [setTimeout] (each one a pending
    [preloadRoute path]) and, once the timers have fired, how each
    prefetch ended. *)
Record Browser := mkBrowser {
  navigations : list Navigation;
  timers : list string;
  prefetched : list (string * Completion unit)
}.

Definition fresh_browser : Browser := mkBrowser [] [] [].

(** The immediately invoked [switch] on [user.role] (lines 38-49): the
    route, and the path whose prefetch it schedules, if any.  [case]
    labels compare with [===], so only the two strings match. *)
Definition landingRoute (role : option JsVal) : string * option string :=
  match role with
  | Some (JStr r) =>
      if String.eqb r "Admin" then
        ("/dashboard/admin/tasks", Some "/dashboard/admin")
      else if String.eqb r "Organisation" then
        ("/dashboard/organisation", Some "/dashboard/organisation")
      else ("/dashboard/user", None)
  | _ => ("/dashboard/user", None)
  end.

(** The effect itself (lines 36-52): nothing without a user, else the
    timer is queued first and [navigate(route, { replace: true })]
    follows. *)
Definition dashboardRedirect (s : AuthState) (b : Browser) : Browser :=
  match user s with
  | None => b
  | Some u =>
      let '(route, preload) := landingRoute (role_of u) in
      mkBrowser (navigations b ++ [mkNavigation route true])
                (timers b ++ option_list preload)
                (prefetched b)
  end.

(** The event loop firing the queued timers afterwards; a callback
    that throws ends alone, the next timer still fires. *)
Definition fire_timers (preloadRoute : string → Completion unit)
    (b : Browser) : Browser :=
  mkBrowser (navigations b) []
            (prefetched b ++ map (λ p, (p, preloadRoute p)) (timers b)).

(** ** The route table of [App] *)

Inductive Element :=
| LoadingSpinner
| LandingPage
| Auth
| Dashboard
| DashboardRedirect
| UserDashboard
| Navigate (to : string) (replace : bool)
| ProtectedRoute (allowedRoles : list string)
| Lazy (name : string).

Inductive RoutePath :=
| Path (p : string)
| Index
| Layout.

#[global] Instance RoutePath_eq_dec : EqDecision RoutePath.
Proof. solve_decision. Defined.

#[warnings="-register-all"] Inductive Route :=
| mkRoute (path : RoutePath) (element : option Element)
          (children : list Route).

Definition route_path (r : Route) : RoutePath :=
  match r with mkRoute p _ _ => p end.

Definition route_element (r : Route) : option Element :=
  match r with mkRoute _ e _ => e end.

Section Routes.

(** [adminRoutes.children] and [organisationRoutes.children], from
    [routes/], which is not among the sources. *)
Variable adminRoutes : list Route.
Variable organisationRoutes : list Route.

(** The children of [<Routes>] (lines 108-144). *)
Definition routes (isAuthenticated : bool) : list Route :=
  [ mkRoute (Path "/") (Some LandingPage) [];
    mkRoute (Path "/auth")
      (Some (if isAuthenticated then Navigate "/dashboard" true else Auth))
      [];
    mkRoute Layout
      (Some (ProtectedRoute ["Admin"; "Organisation"; "Project Manager";
                             "Team Manager"; "Team Member"]))
      [ mkRoute (Path "/dashboard") (Some Dashboard)
          [ mkRoute Index (Some DashboardRedirect) [];
            mkRoute (Path "admin") None adminRoutes;
            mkRoute (Path "organisation") None organisationRoutes;
            mkRoute (Path "user") (Some UserDashboard) [] ] ];
    mkRoute (Path "*") (Some (Navigate "/" true)) [] ].

(** What [App] returns (lines 95-152): the spinner while the store is
    loading, the router with its routes afterwards. *)
Inductive Rendered :=
| Spinner
| Router (rs : list Route).

Definition App (s : AuthState) : Rendered :=
  if isLoading s then Spinner else Router (routes (isAuthenticated s)).

End Routes.

(** The element of the top-level route registered under a path. *)
Definition element_at (p : string) (rs : list Route) : option Element :=
  r ← List.find (λ r, bool_decide (route_path r = Path p)) rs;
  route_element r.

(** ** [ProtectedRoute]: the route authorizer *)

Inductive Authorization := Unknown | Denied | Allowed.

(** Modelled from the spec: the decision of [components/ProtectedRoute],
    which is not among the sources ([App] only mounts it with its
    [allowedRoles]).  The spec's transition function: loading gives
    [Unknown]; no identity gives [Denied]; a resolved identity gives
    [Allowed] when its role is among the required ones and [Denied]
    otherwise. *)
Definition authorize (s : AuthState) (requiredRoles : list string)
  : Authorization :=
  if isLoading s then Unknown
  else match user s with
       | None => Denied
       | Some u =>
           match role_of u with
           | Some (JStr r) =>
               if bool_decide (r ∈ requiredRoles) then Allowed else Denied
           | _ => Denied
           end
       end.

(** Modelled from the spec: what [components/ProtectedRoute] renders for
    each decision: a placeholder and no redirect while [Unknown], a
    redirect to the unauthenticated entry route when [Denied], the
    guarded subtree when [Allowed].  The spec does not name the entry
    route; it is a parameter. *)
Inductive Guarded :=
| Placeholder
| RedirectTo (to : string)
| Subtree.

Definition protectedRoute (entryRoute : string) (s : AuthState)
    (requiredRoles : list string) : Guarded :=
  match authorize s requiredRoles with
  | Unknown => Placeholder
  | Denied => RedirectTo entryRoute
  | Allowed => Subtree
  end.

(** ** The scenario of the spec *)

Definition admin7 : UserObj :=
  {[ "id" := JNum 7; "role" := JStr "Admin"; "password" := JStr "x" ]}.

Definition org9 : UserObj :=
  {[ "id" := JNum 9; "role" := JStr "Organisation" ]}.

Definition tok123 : gmap string string := {[ "token" := "tok-123" ]}.

(** ** Route subtrees *)


(** ** Effects over any component state

    The monad of [Js], for a world of any type: the handlers of the
    two dashboard components below run on their own state. *)

Definition Eff (W A : Type) : Type := W → W * Completion A.

#[global] Instance Eff_ret W : MRet (Eff W) := λ A a w, (w, Normal a).

#[global] Instance Eff_bind W : MBind (Eff W) := λ A B f m w,
  match m w with
  | (w', Normal a) => f a w'
  | (w', Throw e) => (w', Throw e)
  end.

(** [try { body } catch (e) { handler }]. *)
Definition catching {W A} (body : Eff W A) (handler : string → Eff W A)
  : Eff W A :=
  λ w, match body w with
       | (w', Normal a) => (w', Normal a)
       | (w', Throw e) => handler e w'
       end.

(** [try { body } finally { cleanup }]: the cleanup runs on every
    completion, and the completion of the body stands unless the
    cleanup throws itself. *)
Definition finally {W A} (body : Eff W A) (cleanup : Eff W unit) : Eff W A :=
  λ w, match body w with
       | (w', c) =>
           match cleanup w' with
           | (w'', Normal _) => (w'', c)
           | (w'', Throw e) => (w'', Throw e)
           end
       end.

(** [useMutation(fn, { onSuccess, onError }).mutate()]: the handler
    chosen by how [fn] completes; the rejection stays inside the
    mutation. *)
Definition mutate {W} (fn : Eff W unit) (onSuccess onError : Eff W unit)
  : Eff W unit :=
  λ w, match fn w with
       | (w', Normal _) => onSuccess w'
       | (w', Throw _) => onError w'
       end.

Definition completed {A} (c : Completion A) : bool :=
  match c with
  | Normal _ => true
  | Throw _ => false
  end.

(** [s.includes(sub)]. *)
Fixpoint includes (s sub : string) : bool :=
  String.prefix sub s ||
  match s with
  | EmptyString => false
  | String _ s' => includes s' sub
  end.

(** ** [AddMembersComponent] *)

Module AddMembers.

(** The fields of [User] the component reads. *)
Record User := mkUser {
  id : Z;
  email : string;
  username : string;
  role : string;
  organisationId : option Z;
  createdAt : option string
}.

(** The fields of the organisation the component reads; [members] may
    be missing. *)
Record Organisation := mkOrganisation {
  org_organisationId : Z;
  ownerId : Z;
  members : option (list Z);
  org_username : string
}.

Record State := mkState {
  isPopupOpen : bool;
  searchEmail : string;
  filteredUsers : list User;
  selectedUsers : list User;
  isSearching : bool
}.

Inductive Effect :=
| UpdateOrg (organisationId : Z) (members : list Z)
| UpdateUser (userId : Z) (organisationId : option Z)
| InvalidateQueries (key : string) (organisationId : option Z)
| OnAddMembers (users : list User)
| ToastSuccess (msg : string)
| ToastError (msg : string).

Record World := mkWorld {
  state : State;
  effects : list Effect
}.

Definition ids (users : list User) : list Z := map id users.

(** [organisation.members || []]. *)
Definition members_of (org : Organisation) : list Z :=
  default [] (members org).

(** The three conditions of the search filter that do not look at the
    query (lines 140-142): not the owner, not an admin, not a member
    yet. *)
Definition eligible (org : Organisation) (u : User) : bool :=
  negb (id u =? ownerId org)%Z &&
  negb (String.eqb (role u) "Admin") &&
  negb (bool_decide (id u ∈ members_of org)).

(** [prev => prev.some(...) ? prev.filter(...) : [...prev, user]]
    (lines 150-156). *)
Definition toggleUserSelection (u : User) (prev : list User) : list User :=
  if existsb (λ v, (id v =? id u)%Z) prev
  then List.filter (λ v, negb (id v =? id u)%Z) prev
  else prev ++ [u].

(** [organisation.members?.filter(id => id !== userId) || []]
    (line 109). *)
Definition membersWithout (org : Organisation) (userId : Z) : list Z :=
  match members org with
  | Some ms => List.filter (λ i, negb (i =? userId)%Z) ms
  | None => []
  end.

(** [[...(organisation.members || []), ...selectedUsers.map(u => u.id)]]
    (lines 71-74). *)
Definition membersWith (org : Organisation) (selected : list User)
  : list Z :=
  members_of org ++ ids selected.

Definition setSearchEmail (q : string) : Eff World unit :=
  λ w, (mkWorld (mkState (isPopupOpen (state w)) q (filteredUsers (state w))
                         (selectedUsers (state w)) (isSearching (state w)))
                (effects w), Normal tt).

Definition setFilteredUsers (l : list User) : Eff World unit :=
  λ w, (mkWorld (mkState (isPopupOpen (state w)) (searchEmail (state w)) l
                         (selectedUsers (state w)) (isSearching (state w)))
                (effects w), Normal tt).

Definition setSelectedUsers (f : list User → list User) : Eff World unit :=
  λ w, (mkWorld (mkState (isPopupOpen (state w)) (searchEmail (state w))
                         (filteredUsers (state w))
                         (f (selectedUsers (state w))) (isSearching (state w)))
                (effects w), Normal tt).

Definition setIsSearching (b : bool) : Eff World unit :=
  λ w, (mkWorld (mkState (isPopupOpen (state w)) (searchEmail (state w))
                         (filteredUsers (state w))
                         (selectedUsers (state w)) b)
                (effects w), Normal tt).

Definition emit (e : Effect) : Eff World unit :=
  λ w, (mkWorld (state w) (effects w ++ [e]), Normal tt).

(** Awaiting a service call: the call is recorded and completes as the
    service says. *)
Definition request (e : Effect) (outcome : Completion unit)
  : Eff World unit :=
  λ w, (mkWorld (state w) (effects w ++ [e]), outcome).

(** How [Promise.all] settles over calls that have all been started:
    it rejects as soon as one does.  Which rejection wins is a matter
    of timing; the first in list order stands for it, and no handler
    of the component looks at it. *)
Definition settle_all (outcomes : list (Completion unit))
  : Completion unit :=
  match List.find (λ c, match c with Throw _ => true | Normal _ => false end)
                  outcomes with
  | Some c => c
  | None => Normal tt
  end.

(** [await Promise.all(calls)]: every call is started by the [map]
    before anything is awaited. *)
Definition request_all (calls : list (Effect * Completion unit))
  : Eff World unit :=
  λ w, (mkWorld (state w) (effects w ++ map fst calls),
        settle_all (map snd calls)).

(** The service calls among some effects, in order. *)
Definition is_service (e : Effect) : bool :=
  match e with
  | UpdateOrg _ _ | UpdateUser _ _ => true
  | _ => false
  end.

Definition services (l : list Effect) : list Effect :=
  List.filter is_service l.

(** A render on which no handler has run yet. *)
Definition start (st : State) : World := mkWorld st [].

Section Component.

(** [String.prototype.toLowerCase]. *)
Variable toLowerCase : string → string.

(** The query data and props of one render: [organisation] is
    [undefined] until its query has answered. *)
Variable organisationId : Z.
Variable organisation : option Organisation.
Variable allUsers : list User.
Variable onAddMembers : bool.

(** [orgServices.updateOrg] and [userServices.updateUser], from
    [api/services], which is not among the sources: how each call
    completes. *)
Variable updateOrg : Z → list Z → Completion unit.
Variable updateUser : Z → option Z → Completion unit.

(** The callback of the search filter (lines 138-142). *)
Definition wanted (org : Organisation) (q : string) (u : User) : bool :=
  includes (toLowerCase (email u)) (toLowerCase q) &&
  negb (id u =? ownerId org)%Z &&
  negb (String.eqb (role u) "Admin") &&
  negb (bool_decide (id u ∈ members_of org)).

Definition searchUsers (org : Organisation) (q : string) : list User :=
  List.filter (wanted org q) allUsers.

(** [handleSearchUsers] (lines 131-148). *)
Definition handleSearchUsers (q : string) : Eff World unit :=
  setSearchEmail q;;
  match organisation with
  | None => mret tt
  | Some org =>
      setIsSearching true;;
      finally (setFilteredUsers (searchUsers org q))
              (setIsSearching false)
  end.

(** The mutation function of [addMembersMutation] (lines 68-87);
    [selectedUsers] is the one of the render the handler closes over. *)
Definition addMembersFn : Eff World unit :=
  λ w,
  let selected := selectedUsers (state w) in
  match organisation with
  | None => (w, Normal tt)
  | Some org =>
      if (length selected =? 0)%nat then (w, Normal tt)
      else
        (request (UpdateOrg (org_organisationId org) (membersWith org selected))
                 (updateOrg (org_organisationId org) (membersWith org selected));;
         request_all
           (map (λ u, (UpdateUser (id u) (Some (org_organisationId org)),
                       updateUser (id u) (Some (org_organisationId org))))
                selected)) w
  end.

(** Its [onSuccess] (lines 89-98) and [onError] (lines 99-101). *)
Definition addMembersSuccess : Eff World unit :=
  λ w,
  let selected := selectedUsers (state w) in
  (emit (InvalidateQueries "organisation" (Some organisationId));;
   emit (InvalidateQueries "orgMembers" (Some organisationId));;
   emit (InvalidateQueries "users" None);;
   (if onAddMembers then emit (OnAddMembers selected) else mret tt);;
   setSelectedUsers (λ _, []);;
   setSearchEmail "";;
   setFilteredUsers [];;
   emit (ToastSuccess "Members added successfully!")) w.

Definition addMembersError : Eff World unit :=
  emit (ToastError "Failed to add members!").

Definition addMembers : Eff World unit :=
  mutate addMembersFn addMembersSuccess addMembersError.

(** The mutation function of [removeMemberMutation] (lines 106-117),
    with its handlers (lines 119-127). *)
Definition removeMemberFn (userId : Z) : Eff World unit :=
  match organisation with
  | None => mret tt
  | Some org =>
      request (UpdateOrg (org_organisationId org) (membersWithout org userId))
              (updateOrg (org_organisationId org) (membersWithout org userId));;
      request (UpdateUser userId None) (updateUser userId None)
  end.

Definition removeMemberSuccess : Eff World unit :=
  emit (InvalidateQueries "organisation" (Some organisationId));;
  emit (InvalidateQueries "orgMembers" (Some organisationId));;
  emit (InvalidateQueries "users" None);;
  emit (ToastSuccess "Member removed successfully!").

Definition removeMemberError : Eff World unit :=
  emit (ToastError "Failed to remove member!").

Definition removeMember (userId : Z) : Eff World unit :=
  mutate (removeMemberFn userId) removeMemberSuccess removeMemberError.


End Component.

End AddMembers.

(** ** [ProjectDetailsView] *)

Module ProjectDetailsView.

(** [Project], from [types/typesDefinition/project.d.ts]. *)
Inductive Status := active | archived | planning.

Record Project := mkProject {
  projectId : Z;
  name : string;
  description : option string;
  organisationId : Z;
  projectManagerId : Z;
  teams : list Z;
  createdAt : string;
  status : Status;
  startDate : option string;
  endDate : option string;
  id : option Z
}.

Definition status_name (s : Status) : string :=
  match s with
  | active => "active"
  | archived => "archived"
  | planning => "planning"
  end.

(** The values a property of [editedProject] holds. *)
Inductive Field :=
| Undefined
| Str (s : string)
| Num (n : Z)
| Nums (l : list Z).

Definition optional (o : option string) : Field :=
  match o with
  | Some s => Str s
  | None => Undefined
  end.

(** The initial [editedProject] (lines 26-34): seven own properties,
    the optional ones possibly [undefined]. *)
Definition initialEdit (project : Project) : gmap string Field :=
  <["name" := Str (name project)]>
  (<["description" := optional (description project)]>
  (<["startDate" := optional (startDate project)]>
  (<["endDate" := optional (endDate project)]>
  (<["status" := Str (status_name (status project))]>
  (<["projectManagerId" := Num (projectManagerId project)]>
  (<["teams" := Nums (teams project)]> ∅)))))).

(** The fields of [Team] the view reads (lines 302-308). *)
Record Team := mkTeam {
  teamId : Z;
  team_name : string
}.

Record State := mkState {
  isEditing : bool;
  isLoading : bool;
  projectTeams : list Team;
  selectedTeam : option Team;
  editedProject : gmap string Field
}.

Inductive Toast :=
| toast_error (msg : string)
| toast_success (msg : string).

Inductive Request :=
| GetProjectTeams (projectId : Z)
| UpdateProject (projectId : Z) (edited : gmap string Field)
| RemoveTeamFromProject (projectId teamId : Z).

Record World := mkWorld {
  view : State;
  toasts : list Toast;
  console : list string;
  requests : list Request
}.

(** The keys an input of the view writes: the four [editableFields]
    (lines 123-153), the name (line 254) and the description
    (line 277). *)
Inductive EditKey :=
| k_startDate
| k_endDate
| k_status
| k_projectManagerId
| k_name
| k_description.

Definition key_name (k : EditKey) : string :=
  match k with
  | k_startDate => "startDate"
  | k_endDate => "endDate"
  | k_status => "status"
  | k_projectManagerId => "projectManagerId"
  | k_name => "name"
  | k_description => "description"
  end.

(** What the user can do to the view without a service call. *)
Inductive Event :=
| ClickEdit
| ClickCancel
| ClickDiscard
| Change (key : EditKey) (value : string)
| ClickTeam (team : Team)
| CloseModal.

(** The handlers behind these events: [setIsEditing] (lines 177, 182,
    346), [setEditedProject({...editedProject, [key]: e.target.value})]
    (lines 211, 225, 252, 275), [handleTeamClick] and [closeModal]
    (lines 68-74). *)
Definition handle (st : State) (ev : Event) : State :=
  match ev with
  | ClickEdit =>
      mkState true (isLoading st) (projectTeams st) (selectedTeam st)
              (editedProject st)
  | ClickCancel | ClickDiscard =>
      mkState false (isLoading st) (projectTeams st) (selectedTeam st)
              (editedProject st)
  | Change k v =>
      mkState (isEditing st) (isLoading st) (projectTeams st)
              (selectedTeam st) (<[key_name k := Str v]> (editedProject st))
  | ClickTeam t =>
      mkState (isEditing st) (isLoading st) (projectTeams st) (Some t)
              (editedProject st)
  | CloseModal =>
      mkState (isEditing st) (isLoading st) (projectTeams st) None
              (editedProject st)
  end.

(** The writes to [editedProject] among some events, in order. *)
Definition writes (evs : list Event) : list (EditKey * string) :=
  omap (λ ev, match ev with Change k v => Some (k, v) | _ => None end) evs.

Definition write (edited : gmap string Field) (kv : EditKey * string)
  : gmap string Field :=
  <[key_name kv.1 := Str kv.2]> edited.

(** Who is shown the edit controls (line 175). *)
Definition canEdit (userCurr : option UserObj) (project : Project) : bool :=
  match userCurr with
  | None => false
  | Some u =>
      bool_decide (role_of u = Some (JStr "Admin")) ||
      (bool_decide (role_of u = Some (JStr "Organisation")) &&
       bool_decide (u !! "id" = Some (JNum (projectId project))))
  end.

Definition setIsLoading (b : bool) : Eff World unit :=
  λ w, (mkWorld (mkState (isEditing (view w)) b (projectTeams (view w))
                         (selectedTeam (view w)) (editedProject (view w)))
                (toasts w) (console w) (requests w), Normal tt).

Definition setIsEditing (b : bool) : Eff World unit :=
  λ w, (mkWorld (mkState b (isLoading (view w)) (projectTeams (view w))
                         (selectedTeam (view w)) (editedProject (view w)))
                (toasts w) (console w) (requests w), Normal tt).

Definition setProjectTeams (l : list Team) : Eff World unit :=
  λ w, (mkWorld (mkState (isEditing (view w)) (isLoading (view w)) l
                         (selectedTeam (view w)) (editedProject (view w)))
                (toasts w) (console w) (requests w), Normal tt).

Definition toast (t : Toast) : Eff World unit :=
  λ w, (mkWorld (view w) (toasts w ++ [t]) (console w) (requests w),
        Normal tt).

Definition console_error (msg : string) : Eff World unit :=
  λ w, (mkWorld (view w) (toasts w) (console w ++ [msg]) (requests w),
        Normal tt).

(** Awaiting a service call: it is recorded and completes as the
    service says. *)
Definition request {A} (r : Request) (outcome : Completion A)
  : Eff World A :=
  λ w, (mkWorld (view w) (toasts w) (console w) (requests w ++ [r]),
        outcome).

#[global] Instance EditKey_eq_dec : EqDecision EditKey.
Proof. solve_decision. Defined.

(** The last value written under a key, if any. *)
Definition last_write (k : EditKey) (ws : list (EditKey * string))
  : option string :=
  last (omap (λ kv, if decide (kv.1 = k) then Some kv.2 else None) ws).

(** A render on which no handler has run yet. *)
Definition start (st : State) : World := mkWorld st [] [] [].

(** The state of the first render (lines 20-34). *)
Definition initial (project : Project) : State :=
  mkState false true [] None (initialEdit project).

Section Handlers.

Variable project : Project.

(** [teamServices.getProjectTeams], [projectServices.updateProject] and
    [projectServices.removeTeamFromProject], from [api/services], which
    is not among the sources: how each call completes. *)
Variable getProjectTeams : Z → Completion (list Team).
Variable updateProject : Z → gmap string Field → Completion unit.
Variable removeTeamFromProject : Z → Z → Completion unit.

(** [fetchProjectData] (lines 53-66). *)
Definition fetchProjectData : Eff World unit :=
  finally
    (catching
       (setIsLoading true;;
        projectTeamsData ←
          request (GetProjectTeams (projectId project))
                  (getProjectTeams (projectId project));
        setProjectTeams projectTeamsData)
       (λ error,
          toast (toast_error "Error fetching project data");;
          console_error ("Error fetching project data: " +:+ error)))
    (setIsLoading false).

(** [handleSave] (lines 101-110); [editedProject] is the one of the
    render the handler closes over. *)
Definition handleSave : Eff World unit :=
  λ w,
  let edited := editedProject (view w) in
  catching
    (request (UpdateProject (projectId project) edited)
             (updateProject (projectId project) edited);;
     fetchProjectData;;
     setIsEditing false)
    (λ error,
       toast (toast_error "Error updating project");;
       console_error ("Error updating project: " +:+ error)) w.

(** [handleRemoveTeam] (lines 112-121). *)
Definition handleRemoveTeam (teamId : Z) : Eff World unit :=
  catching
    (request (RemoveTeamFromProject (projectId project) teamId)
             (removeTeamFromProject (projectId project) teamId);;
     fetchProjectData;;
     toast (toast_success "Team removed successfully"))
    (λ error,
       toast (toast_error "Error removing team");;
       console_error ("Error removing team: " +:+ error)).

End Handlers.

End ProjectDetailsView.

(** ** Sample data *)

Definition lower_char (c : Ascii.ascii) : Ascii.ascii :=
  let n := Ascii.nat_of_ascii c in
  if (65 <=? n)%nat && (n <=? 90)%nat then Ascii.ascii_of_nat (n + 32) else c.

(** Lowering of the ASCII letters, standing for [toLowerCase] on the
    samples. *)
Fixpoint lower_ascii (s : string) : string :=
  match s with
  | EmptyString => EmptyString
  | String c s' => String (lower_char c) (lower_ascii s')
  end.

Definition ada : AddMembers.User :=
  AddMembers.mkUser 2 "Ada@Example.com" "ada" "Team Member" None None.

Definition bob : AddMembers.User :=
  AddMembers.mkUser 4 "bob@example.com" "bob" "Project Manager" None None.

Definition acme : AddMembers.Organisation :=
  AddMembers.mkOrganisation 5 1 (Some [1; 3]%Z) "acme".

(** The component after typing ["ADA"] and after clicking the one
    result. *)
Definition searched : AddMembers.State :=
  AddMembers.state
    (AddMembers.handleSearchUsers lower_ascii (Some acme) [ada; bob] "ADA"
       (AddMembers.start (AddMembers.mkState false "" [] [] false))).1.

Definition clicked : AddMembers.State :=
  AddMembers.state
    (AddMembers.setSelectedUsers (AddMembers.toggleUserSelection ada)
       (AddMembers.start searched)).1.

(** * Properties *)

(** ** The store *)

Lemma reachable_consistent s : reachable s → consistent s.
Proof.
  induction 1 as [|s a Hs [IHu IHa]]; [by split|].
  destruct a; split; cbn; intros Hauth; try done.
  - by apply IHu.
  - destruct (IHa Hauth) as [_ ?]. by split.
Qed.

Lemma reachable_unauthenticated s :
  reachable s → isAuthenticated s = false → user s = None.
Proof. intros Hs Hauth. by destruct (reachable_consistent s Hs) as [[? _] _]. Qed.

Lemma finishInitialLoad_id s :
  isLoading s = false → authReducer s finishInitialLoad = s.
Proof. destruct s; cbn; by intros ->. Qed.

(** ** The paths of [initAuth] *)

Ltac step_run :=
  unfold run, initAuth, boot, try_catch, await, dispatch, removeItem,
    console_error, getItem, mbind, Js_bind, mret, Js_ret; cbn.

Section Paths.

Variables verifyToken verifyOrgToken : string → Response.
Variable s : AuthState.
Variable ls : gmap string string.

(** The [else] branch: no truthy token, or a session that is already
    authenticated. *)
Lemma run_skip :
  truthy (ls !! "token") && negb (isAuthenticated s) = false →
  run verifyToken verifyOrgToken s ls = skipped s ls.
Proof. intros Hguard. step_run. by rewrite Hguard. Qed.

Section Verifying.

Variable tok : string.
Hypothesis Hstored : ls !! "token" = Some tok.
Hypothesis Hpresent : tok ≠ "".
Hypothesis Hfresh : isAuthenticated s = false.

Lemma guard_open :
  truthy (ls !! "token") && negb (isAuthenticated s) = true.
Proof.
  rewrite Hstored, Hfresh. cbn.
  destruct (String.eqb_spec tok ""); [done|reflexivity].
Qed.

Lemma run_user u :
  verifyToken tok = Resolved (Some u) →
  run verifyToken verifyOrgToken s ls =
    accept s ls tok [mkCall VerifyUser tok (Resolved (Some u))] u.
Proof.
  intros Hu. step_run. rewrite guard_open, Hstored. cbn. by rewrite Hu.
Qed.

Lemma run_org o :
  verifyToken tok = Resolved None →
  verifyOrgToken tok = Resolved (Some o) →
  run verifyToken verifyOrgToken s ls =
    accept s ls tok [mkCall VerifyUser tok (Resolved None);
                     mkCall VerifyOrg tok (Resolved (Some o))] o.
Proof.
  intros Hu Ho. step_run. rewrite guard_open, Hstored. cbn.
  by rewrite Hu, Ho.
Qed.

Lemma run_invalid :
  verifyToken tok = Resolved None →
  verifyOrgToken tok = Resolved None →
  run verifyToken verifyOrgToken s ls =
    reject s ls tok [mkCall VerifyUser tok (Resolved None);
                     mkCall VerifyOrg tok (Resolved None)] [].
Proof.
  intros Hu Ho. step_run. rewrite guard_open, Hstored. cbn.
  by rewrite Hu, Ho.
Qed.

Lemma run_user_rejected e :
  verifyToken tok = Rejected e →
  run verifyToken verifyOrgToken s ls =
    reject s ls tok [mkCall VerifyUser tok (Rejected e)]
                    ["Auth initialization failed: " +:+ e].
Proof.
  intros Hu. step_run. rewrite guard_open, Hstored. cbn. by rewrite Hu.
Qed.

Lemma run_org_rejected e :
  verifyToken tok = Resolved None →
  verifyOrgToken tok = Rejected e →
  run verifyToken verifyOrgToken s ls =
    reject s ls tok [mkCall VerifyUser tok (Resolved None);
                     mkCall VerifyOrg tok (Rejected e)]
                    ["Auth initialization failed: " +:+ e].
Proof.
  intros Hu Ho. step_run. rewrite guard_open, Hstored. cbn.
  by rewrite Hu, Ho.
Qed.

End Verifying.

End Paths.

(** Every run follows one of the paths. *)
Lemma run_path verifyToken verifyOrgToken s ls :
  path verifyToken verifyOrgToken s ls (run verifyToken verifyOrgToken s ls).
Proof.
  destruct (truthy (ls !! "token") && negb (isAuthenticated s)) eqn:Hguard.
  - apply andb_true_iff in Hguard as [Htok Hauth].
    apply negb_true_iff in Hauth.
    destruct (ls !! "token") as [tok|] eqn:Hstored; [|done].
    assert (tok ≠ "") as Hpresent.
    { intros ->. done. }
    assert (verifying s ls tok) as Hv by done.
    destruct (verifyToken tok) as [[u|]|e] eqn:Hu.
    + erewrite run_user by done. by constructor.
    + destruct (verifyOrgToken tok) as [[o|]|e] eqn:Ho.
      * erewrite run_org by done. by constructor.
      * erewrite run_invalid by done. by constructor.
      * erewrite run_org_rejected by done. by constructor.
    + erewrite run_user_rejected by done. by constructor.
  - rewrite run_skip by done. by constructor.
Qed.

(** A run leaves the store in a state it can be in. *)
Lemma run_reachable verifyToken verifyOrgToken s ls :
  reachable s → reachable (store (run verifyToken verifyOrgToken s ls).1).
Proof.
  intros Hs. destruct (run_path verifyToken verifyOrgToken s ls);
    unfold skipped, accept, reject; cbn [fst store]; by constructor.
Qed.

(** The run of an authenticated session. *)
Lemma run_authenticated verifyToken verifyOrgToken s ls :
  reachable s → isAuthenticated s = true →
  run verifyToken verifyOrgToken s ls
    = (mkWorld s ls [finishInitialLoad] [] [], Normal tt).
Proof.
  intros Hs Hauth. rewrite run_skip.
  - unfold skipped. rewrite finishInitialLoad_id; [done|].
    destruct (reachable_consistent s Hs) as [_ Hc]. by destruct (Hc Hauth).
  - rewrite Hauth. apply andb_false_r.
Qed.

(** Bootstrapping again after an acceptance changes nothing and asks
    nothing. *)
Lemma run_again verifyToken verifyOrgToken verifyToken' verifyOrgToken' s ls :
  reachable s →
  let first := (run verifyToken verifyOrgToken s ls).1 in
  isAuthenticated (store first) = true →
  let second :=
    (run verifyToken' verifyOrgToken' (store first) (localStorage first)).1 in
  network second = [] ∧ store second = store first ∧
  localStorage second = localStorage first.
Proof.
  intros Hs first Hauth second. subst second.
  rewrite run_authenticated; [done| |done].
  by apply run_reachable.
Qed.

(** ** The scenario of the spec, evaluated *)

Example scenario_session :
  store (run (λ _, Resolved (Some admin7)) (λ _, Resolved (Some org9))
             initialState tok123).1
  = {| user := Some {[ "id" := JNum 7; "role" := JStr "Admin" ]};
       token := Some "tok-123"; isAuthenticated := true; isLoading := false |}.
Proof. by vm_compute. Qed.

Example scenario_requests :
  asked (network (run (λ _, Resolved (Some admin7)) (λ _, Resolved (Some org9))
                      initialState tok123).1)
  = [VerifyUser].
Proof. reflexivity. Qed.

Example scenario_landing :
  navigations (dashboardRedirect
    (store (run (λ _, Resolved (Some admin7)) (λ _, Resolved (Some org9))
                initialState tok123).1) fresh_browser)
  = [mkNavigation "/dashboard/admin/tasks" true].
Proof. by vm_compute. Qed.

Example scenario_authorize :
  authorize
    (store (run (λ _, Resolved (Some admin7)) (λ _, Resolved (Some org9))
                initialState tok123).1) ["Admin"]
  = Allowed.
Proof. by vm_compute. Qed.

Example empty_token_is_no_token :
  run (λ _, Resolved (Some admin7)) (λ _, Resolved (Some org9))
      initialState {[ "token" := "" ]}
  = skipped initialState {[ "token" := "" ]}.
Proof. reflexivity. Qed.

(** * The bootstrap contract *)

(** C1: with a token in storage and a session that is not yet
    authenticated, the user-domain request is the first one issued; the
    organisation-domain request is issued only after the user-domain one
    answered [null]; and whenever the user domain resolves the token, the
    organisation domain is not asked and the identity stored is the
    user-domain record (without its password), whatever the organisation
    domain would have answered. *)
Theorem user_check_precedes_org_check verifyToken verifyOrgToken s ls tok :
  ls !! "token" = Some tok → tok ≠ "" → isAuthenticated s = false →
  let w := (run verifyToken verifyOrgToken s ls).1 in
  head (network w) = Some (mkCall VerifyUser tok (verifyToken tok)) ∧
  (VerifyOrg ∈ asked (network w) →
     verifyToken tok = Resolved None ∧
     asked (network w) = [VerifyUser; VerifyOrg]) ∧
  (∀ u, verifyToken tok = Resolved (Some u) →
     asked (network w) = [VerifyUser] ∧
     dispatched w = [setCredentials (mkCredentials (withoutPassword u) tok)] ∧
     user (store w) = Some (withoutPassword u) ∧
     ∀ o, verifyOrgToken tok = Resolved (Some o) →
          withoutPassword o ≠ withoutPassword u →
          user (store w) ≠ Some (withoutPassword o)).
Proof.
  intros Hstored Hpresent Hfresh w. subst w.
  destruct (verifyToken tok) as [[u|]|e] eqn:Hu.
  - erewrite run_user by done. cbn. split; [done|]. split.
    + intros Hin. apply list_elem_of_singleton in Hin. done.
    + intros u' [= <-]. repeat split; [].
      intros o _ Hne [= Heq]. by apply Hne.
  - destruct (verifyOrgToken tok) as [[o|]|e] eqn:Ho.
    + erewrite run_org by done. cbn. by repeat split.
    + erewrite run_invalid by done. cbn. by repeat split.
    + erewrite run_org_rejected by done. cbn. by repeat split.
  - erewrite run_user_rejected by done. cbn. split; [done|]. split; [|done].
    intros Hin. apply list_elem_of_singleton in Hin. done.
Qed.

Lemma user_check_precedes_org_check_witness :
  tok123 !! "token" = Some "tok-123" ∧ "tok-123" ≠ "" ∧
  isAuthenticated initialState = false ∧
  let w := (run (λ _, Resolved (Some admin7)) (λ _, Resolved (Some org9))
                initialState tok123).1 in
  head (network w)
    = Some (mkCall VerifyUser "tok-123" (Resolved (Some admin7))) ∧
  (VerifyOrg ∈ asked (network w) →
     Resolved (Some admin7) = Resolved None ∧
     asked (network w) = [VerifyUser; VerifyOrg]) ∧
  (∀ u, Resolved (Some admin7) = Resolved (Some u) →
     asked (network w) = [VerifyUser] ∧
     dispatched w
       = [setCredentials (mkCredentials (withoutPassword u) "tok-123")] ∧
     user (store w) = Some (withoutPassword u) ∧
     ∀ o, Resolved (Some org9) = Resolved (Some o) →
          withoutPassword o ≠ withoutPassword u →
          user (store w) ≠ Some (withoutPassword o)).
Proof.
  assert (tok123 !! "token" = Some "tok-123") as Hstored by reflexivity.
  assert ("tok-123" ≠ "") as Hpresent by discriminate.
  assert (isAuthenticated initialState = false) as Hfresh by reflexivity.
  exact (conj Hstored (conj Hpresent (conj Hfresh
    (user_check_precedes_org_check
       (λ _, Resolved (Some admin7)) (λ _, Resolved (Some org9))
       initialState tok123 "tok-123" Hstored Hpresent Hfresh)))).
Defined.

(** C2, as stated, fails: the [else] branch of line 87 only dispatches
    [finishInitialLoad], so a session that is authenticated while the
    storage holds no token keeps its identity. *)
Lemma no_token_keeps_identity :
  let s := authReducer initialState
             (setCredentials (mkCredentials org9 "tok-9")) in
  let w := (run (λ _, Resolved None) (λ _, Resolved None) s ∅).1 in
  reachable s ∧
  (∅ : gmap string string) !! "token" = None ∧
  user (store w) = Some org9 ∧
  user (store w) ≠ None.
Proof.
  cbv zeta. split; [apply reach_step, reach_init|].
  split; [reflexivity|]. split; [reflexivity|discriminate].
Qed.

(** C2, amended: when storage holds no token, neither verification
    endpoint is invoked, storage is left as it is, and the session ends
    with loading false and the identity it had before the run: None
    whenever the session was not authenticated. *)
Theorem no_token_finishes_load verifyToken verifyOrgToken s ls :
  reachable s →
  ls !! "token" = None →
  let w := (run verifyToken verifyOrgToken s ls).1 in
  network w = [] ∧
  localStorage w = ls ∧
  dispatched w = [finishInitialLoad] ∧
  isLoading (store w) = false ∧
  user (store w) = user s ∧
  (isAuthenticated s = false → user (store w) = None).
Proof.
  intros Hs Hnone w. subst w.
  rewrite run_skip by (by rewrite Hnone).
  cbn. repeat split; [].
  by apply reachable_unauthenticated.
Qed.

Lemma no_token_finishes_load_witness :
  reachable initialState ∧
  (∅ : gmap string string) !! "token" = None ∧
  let w := (run (λ _, Resolved (Some admin7)) (λ _, Resolved (Some org9))
                initialState ∅).1 in
  network w = [] ∧
  localStorage w = ∅ ∧
  dispatched w = [finishInitialLoad] ∧
  isLoading (store w) = false ∧
  user (store w) = user initialState ∧
  (isAuthenticated initialState = false → user (store w) = None).
Proof.
  assert ((∅ : gmap string string) !! "token" = None) as Hnone
    by reflexivity.
  exact (conj reach_init (conj Hnone
    (no_token_finishes_load
       (λ _, Resolved (Some admin7)) (λ _, Resolved (Some org9))
       initialState ∅ reach_init Hnone))).
Defined.

(** C3: a run in which both endpoints were asked and both answered
    [null], or in which a request threw, removes the token from storage,
    dispatches [finishInitialLoad] alone, leaves the session without
    identity and with loading false, and completes normally: the
    rejection does not escape [initAuth]. *)
Theorem fail_closed verifyToken verifyOrgToken s ls :
  reachable s →
  unresolved (network (run verifyToken verifyOrgToken s ls).1) = true →
  fails_closed ls (run verifyToken verifyOrgToken s ls).
Proof.
  intros Hs Hun. revert Hun. unfold fails_closed.
  destruct (run_path verifyToken verifyOrgToken s ls)
    as [Hg|tok u Hv Hu|tok o Hv Hu Ho|tok Hv Hu Ho|tok e Hv Hu|tok e Hv Hu Ho];
    cbn; try discriminate; intros _; destruct Hv as (_ & _ & Hfresh);
    (repeat split; [apply lookup_delete_eq | by apply reachable_unauthenticated | done]).
Qed.

Lemma fail_closed_witness :
  reachable initialState ∧
  unresolved (network (run (λ _, Resolved None) (λ _, Rejected "Network Error")
                           initialState tok123).1) = true ∧
  fails_closed tok123
    (run (λ _, Resolved None) (λ _, Rejected "Network Error")
         initialState tok123).
Proof.
  assert (unresolved (network (run (λ _, Resolved None)
            (λ _, Rejected "Network Error") initialState tok123).1) = true)
    as Hun by reflexivity.
  exact (conj reach_init (conj Hun
    (fail_closed (λ _, Resolved None) (λ _, Rejected "Network Error")
       initialState tok123 reach_init Hun))).
Defined.

(** C4, as stated, fails: a user-domain request that throws is not
    handled like one that answers [null].  With the same organisation
    endpoint, ready to resolve the token, the throwing run never asks it
    and ends rejected with the token removed, while the [null] run asks
    it and accepts its record. *)
Lemma user_rejection_not_treated_as_null :
  let thrown := (run (λ _, Rejected "Network Error")
                     (λ _, Resolved (Some org9)) initialState tok123).1 in
  let null := (run (λ _, Resolved None)
                   (λ _, Resolved (Some org9)) initialState tok123).1 in
  asked (network thrown) = [VerifyUser] ∧
  user (store thrown) = None ∧
  localStorage thrown !! "token" = None ∧
  asked (network null) = [VerifyUser; VerifyOrg] ∧
  user (store null) = Some org9 ∧
  localStorage null !! "token" = Some "tok-123".
Proof. cbv zeta. by vm_compute. Qed.

(** C4, amended: only a user-domain request that answers [null] passes
    the token on to the organisation-domain check.  A user-domain
    request that throws is caught, logged and resolved as invalid at once
    (token removed, [finishInitialLoad] dispatched) without asking the
    organisation domain; a throwing organisation-domain request is
    resolved as invalid the same way. *)
Theorem rejection_resolves_invalid verifyToken verifyOrgToken s ls tok :
  reachable s →
  ls !! "token" = Some tok → tok ≠ "" → isAuthenticated s = false →
  let r := run verifyToken verifyOrgToken s ls in
  (VerifyOrg ∈ asked (network r.1) ↔ verifyToken tok = Resolved None) ∧
  (∀ e, verifyToken tok = Rejected e →
     asked (network r.1) = [VerifyUser] ∧
     console r.1 = ["Auth initialization failed: " +:+ e] ∧
     fails_closed ls r) ∧
  (∀ e, verifyToken tok = Resolved None →
        verifyOrgToken tok = Rejected e →
     asked (network r.1) = [VerifyUser; VerifyOrg] ∧
     console r.1 = ["Auth initialization failed: " +:+ e] ∧
     fails_closed ls r).
Proof.
  intros Hs Hstored Hpresent Hfresh r. subst r.
  assert (user s = None) as Hnone by by apply reachable_unauthenticated.
  split; [|split].
  - destruct (verifyToken tok) as [[u|]|e] eqn:Hu.
    + erewrite run_user by done. cbn. split; [|done].
      intros Hin. apply list_elem_of_singleton in Hin. done.
    + split; [done|intros _].
      destruct (verifyOrgToken tok) as [[o|]|e] eqn:Ho.
      * erewrite run_org by done. cbn. set_solver.
      * erewrite run_invalid by done. cbn. set_solver.
      * erewrite run_org_rejected by done. cbn. set_solver.
    + erewrite run_user_rejected by done. cbn. split; [|done].
      intros Hin. apply list_elem_of_singleton in Hin. done.
  - intros e Hu. erewrite run_user_rejected by done.
    unfold fails_closed. cbn. repeat split; try done. apply lookup_delete_eq.
  - intros e Hu Ho. erewrite run_org_rejected by done.
    unfold fails_closed. cbn. repeat split; try done. apply lookup_delete_eq.
Qed.

Lemma rejection_resolves_invalid_witness :
  reachable initialState ∧
  tok123 !! "token" = Some "tok-123" ∧ "tok-123" ≠ "" ∧
  isAuthenticated initialState = false ∧
  let r := run (λ _, Rejected "Network Error") (λ _, Resolved (Some org9))
               initialState tok123 in
  (VerifyOrg ∈ asked (network r.1) ↔
     Rejected "Network Error" = Resolved None) ∧
  (∀ e, Rejected "Network Error" = Rejected e →
     asked (network r.1) = [VerifyUser] ∧
     console r.1 = ["Auth initialization failed: " +:+ e] ∧
     fails_closed tok123 r) ∧
  (∀ e, Rejected "Network Error" = Resolved None →
        Resolved (Some org9) = Rejected e →
     asked (network r.1) = [VerifyUser; VerifyOrg] ∧
     console r.1 = ["Auth initialization failed: " +:+ e] ∧
     fails_closed tok123 r).
Proof.
  assert (tok123 !! "token" = Some "tok-123") as Hstored by reflexivity.
  assert ("tok-123" ≠ "") as Hpresent by discriminate.
  assert (isAuthenticated initialState = false) as Hfresh by reflexivity.
  exact (conj reach_init (conj Hstored (conj Hpresent (conj Hfresh
    (rejection_resolves_invalid
       (λ _, Rejected "Network Error") (λ _, Resolved (Some org9))
       initialState tok123 "tok-123"
       reach_init Hstored Hpresent Hfresh))))).
Defined.

(** C5: every run of the bootstrap, from any session and storage and
    with any answers of the endpoints, completes normally, has
    dispatched exactly one action, [finishInitialLoad] or
    [setCredentials], and leaves the loading flag false. *)
Theorem loading_always_finished verifyToken verifyOrgToken s ls :
  let r := run verifyToken verifyOrgToken s ls in
  isLoading (store r.1) = false ∧
  r.2 = Normal tt ∧
  (dispatched r.1 = [finishInitialLoad] ∨
   ∃ p, dispatched r.1 = [setCredentials p]).
Proof.
  cbv zeta. destruct (run_path verifyToken verifyOrgToken s ls); cbn;
    repeat split; eauto.
Qed.

(** C6: whenever a run resolves the token to a record, the session
    holds that record without its [password] property, every other
    property unchanged, together with the token read from storage;
    [setCredentials] is dispatched with exactly that payload and the
    stored user has no [password]. *)
Theorem accepted_identity_stripped verifyToken verifyOrgToken s ls u :
  resolved_identity (network (run verifyToken verifyOrgToken s ls).1)
    = Some u →
  let w := (run verifyToken verifyOrgToken s ls).1 in
  ∃ tok,
    ls !! "token" = Some tok ∧
    dispatched w = [setCredentials (mkCredentials (withoutPassword u) tok)] ∧
    store w = {| user := Some (withoutPassword u); token := Some tok;
                 isAuthenticated := true; isLoading := false |} ∧
    withoutPassword u !! "password" = None ∧
    (∀ k, k ≠ "password" → withoutPassword u !! k = u !! k).
Proof.
  intros Hres w. subst w. revert Hres.
  destruct (run_path verifyToken verifyOrgToken s ls)
    as [Hg|tok u' Hv Hu|tok o Hv Hu Ho|tok Hv Hu Ho|tok e Hv Hu|tok e Hv Hu Ho];
    cbn; try discriminate; intros [= ->]; destruct Hv as (Hstored & _ & _);
    exists tok; (repeat split; [done | apply lookup_delete_eq |]);
    intros k Hk; by apply lookup_delete_ne.
Qed.

Lemma accepted_identity_stripped_witness :
  resolved_identity
    (network (run (λ _, Resolved (Some admin7)) (λ _, Resolved (Some org9))
                  initialState tok123).1) = Some admin7 ∧
  let w := (run (λ _, Resolved (Some admin7)) (λ _, Resolved (Some org9))
                initialState tok123).1 in
  ∃ tok,
    tok123 !! "token" = Some tok ∧
    dispatched w
      = [setCredentials (mkCredentials (withoutPassword admin7) tok)] ∧
    store w = {| user := Some (withoutPassword admin7); token := Some tok;
                 isAuthenticated := true; isLoading := false |} ∧
    withoutPassword admin7 !! "password" = None ∧
    (∀ k, k ≠ "password" → withoutPassword admin7 !! k = admin7 !! k).
Proof.
  assert (resolved_identity
    (network (run (λ _, Resolved (Some admin7)) (λ _, Resolved (Some org9))
                  initialState tok123).1) = Some admin7) as Hres
    by reflexivity.
  exact (conj Hres
    (accepted_identity_stripped
       (λ _, Resolved (Some admin7)) (λ _, Resolved (Some org9))
       initialState tok123 admin7 Hres)).
Defined.

(** C8: bootstrapping a session that is already authenticated issues
    no verification request and leaves the session, and the storage, as
    they were. *)
Theorem authenticated_bootstrap_is_noop verifyToken verifyOrgToken s ls :
  reachable s → isAuthenticated s = true →
  let w := (run verifyToken verifyOrgToken s ls).1 in
  network w = [] ∧ store w = s ∧ localStorage w = ls ∧
  dispatched w = [finishInitialLoad].
Proof.
  intros Hs Hauth w. subst w. by rewrite run_authenticated.
Qed.

Lemma authenticated_bootstrap_is_noop_witness :
  let s := authReducer initialState
             (setCredentials (mkCredentials (withoutPassword admin7) "tok-123")) in
  reachable s ∧ isAuthenticated s = true ∧
  let w := (run (λ _, Resolved (Some admin7)) (λ _, Resolved (Some org9))
                s tok123).1 in
  network w = [] ∧ store w = s ∧ localStorage w = tok123 ∧
  dispatched w = [finishInitialLoad].
Proof.
  pose (s := authReducer initialState
    (setCredentials (mkCredentials (withoutPassword admin7) "tok-123"))).
  assert (reachable s) as Hs by apply reach_step, reach_init.
  assert (isAuthenticated s = true) as Hauth by reflexivity.
  exact (conj Hs (conj Hauth
    (authenticated_bootstrap_is_noop
       (λ _, Resolved (Some admin7)) (λ _, Resolved (Some org9))
       s tok123 Hs Hauth))).
Defined.

(** * Routing *)

(** C7: the landing route is a function of the role alone: the string
    ['Admin'] gives ['/dashboard/admin/tasks'], ['Organisation'] gives
    ['/dashboard/organisation'], anything else ['/dashboard/user'].  For
    a session with a user the effect navigates once, to that route with
    [replace], and the navigation stands whatever the queued prefetch
    does when its timer fires. *)
Theorem landing_route_by_role (role : option JsVal) (u : UserObj)
    (tok : option string) (auth loading : bool) (b : Browser)
    (preloadRoute : string → Completion unit) :
  (landingRoute role).1 =
    (if decide (role = Some (JStr "Admin")) then "/dashboard/admin/tasks"
     else if decide (role = Some (JStr "Organisation"))
          then "/dashboard/organisation"
          else "/dashboard/user") ∧
  navigations (fire_timers preloadRoute
                 (dashboardRedirect (mkAuthState (Some u) tok auth loading) b))
    = (navigations b ++ [mkNavigation (landingRoute (role_of u)).1 true])%list ∧
  navigations (dashboardRedirect (mkAuthState (Some u) tok auth loading) b)
    = navigations (fire_timers preloadRoute
                     (dashboardRedirect (mkAuthState (Some u) tok auth loading) b)).
Proof.
  split.
  - destruct role as [[| |n|r]|]; cbn; try done.
    destruct (String.eqb_spec r "Admin") as [->|Hadmin]; [done|].
    destruct (String.eqb_spec r "Organisation") as [->|Horg]; [done|].
    repeat case_decide; by simplify_eq.
  - unfold dashboardRedirect. cbn.
    by destruct (landingRoute (role_of u)).
Qed.

(** C10: the element registered for ['/auth'] is a redirect to
    ['/dashboard'] with [replace] when the session is authenticated and
    the Auth page when it is not; once loading has finished, [App]
    renders the router with these routes. *)
Theorem auth_route_redirects_when_authenticated
    (adminRoutes organisationRoutes : list Route)
    (u : option UserObj) (tok : option string) (auth : bool) :
  element_at "/auth" (routes adminRoutes organisationRoutes auth)
    = Some (if auth then Navigate "/dashboard" true else Auth) ∧
  App adminRoutes organisationRoutes (mkAuthState u tok auth false)
    = Router (routes adminRoutes organisationRoutes auth).
Proof. by split. Qed.

(** C9: the authorizer answers [Allowed] exactly when the session is
    not loading and holds an identity whose role is among the required
    ones, [Unknown] exactly while the session is loading, and [Denied]
    in every other case; a denied navigation is redirected to the entry
    route, the same one whether the identity is missing or its role is
    not permitted. *)
Theorem authorize_decision (s : AuthState) (requiredRoles : list string)
    (entryRoute : string) :
  (authorize s requiredRoles = Allowed ↔
     isLoading s = false ∧
     ∃ u r, user s = Some u ∧ role_of u = Some (JStr r) ∧ r ∈ requiredRoles) ∧
  (authorize s requiredRoles = Unknown ↔ isLoading s = true) ∧
  (authorize s requiredRoles = Denied ↔
     isLoading s = false ∧
     ¬ ∃ u r, user s = Some u ∧ role_of u = Some (JStr r) ∧ r ∈ requiredRoles) ∧
  (authorize s requiredRoles = Denied ↔
     protectedRoute entryRoute s requiredRoles = RedirectTo entryRoute) ∧
  (isLoading s = false → user s = None →
     protectedRoute entryRoute s requiredRoles = RedirectTo entryRoute) ∧
  (∀ u r, isLoading s = false → user s = Some u →
     role_of u = Some (JStr r) → r ∉ requiredRoles →
     protectedRoute entryRoute s requiredRoles = RedirectTo entryRoute).
Proof.
  unfold protectedRoute, authorize.
  destruct (isLoading s); [naive_solver|].
  destruct (user s) as [u|]; [|naive_solver].
  destruct (role_of u) as [[| |n|r]|] eqn:Hrole; try naive_solver.
  case_bool_decide; naive_solver.
Qed.

(** * Further properties of the bootstrap *)

(** X1: a run removes the token from storage exactly when it ends
    unresolved (both endpoints answered [null], or a request threw);
    in every other run storage is left as it was.  No key other than
    ["token"] is ever touched, and no run writes a token. *)
Theorem storage_changes_only_on_rejection verifyToken verifyOrgToken s ls :
  let w := (run verifyToken verifyOrgToken s ls).1 in
  localStorage w
    = (if unresolved (network w) then delete "token" ls else ls) ∧
  (∀ k, k ≠ "token" → localStorage w !! k = ls !! k) ∧
  (∀ t, localStorage w !! "token" = Some t → ls !! "token" = Some t).
Proof.
  cbv zeta.
  destruct (run_path verifyToken verifyOrgToken s ls); cbn;
    (split; [done|]); split; intros k Hk; try done;
    try (by rewrite lookup_delete_ne);
    by rewrite lookup_delete_eq in Hk.
Qed.

(** X2: a run issues no request, the user-domain request alone, or
    the user-domain request followed by the organisation-domain one;
    each request carries the non-empty token read from storage and is
    answered by its own endpoint. *)
Theorem requests_carry_stored_token verifyToken verifyOrgToken s ls :
  let w := (run verifyToken verifyOrgToken s ls).1 in
  (asked (network w) = [] ∨ asked (network w) = [VerifyUser] ∨
   asked (network w) = [VerifyUser; VerifyOrg]) ∧
  (∀ c, c ∈ network w →
     ls !! "token" = Some (call_token c) ∧ call_token c ≠ "" ∧
     call_response c =
       match call_endpoint c with
       | VerifyUser => verifyToken (call_token c)
       | VerifyOrg => verifyOrgToken (call_token c)
       end).
Proof.
  cbv zeta.
  destruct (run_path verifyToken verifyOrgToken s ls)
    as [Hg|tok u Hv Hu|tok o Hv Hu Ho|tok Hv Hu Ho|tok e Hv Hu|tok e Hv Hu Ho];
    cbn; (split; [by eauto|]); intros c Hc;
    try destruct Hv as (Hstored & Hpresent & _);
    repeat (apply elem_of_cons in Hc as [->|Hc]); try (by inversion Hc); by cbn.
Qed.

(** X3: requests are issued exactly when storage holds a non-empty
    token and the session is not authenticated; a missing token, an
    empty-string token and an authenticated session all skip
    verification. *)
Theorem requests_iff_guard verifyToken verifyOrgToken s ls :
  network (run verifyToken verifyOrgToken s ls).1 = [] ↔
  ls !! "token" = None ∨ ls !! "token" = Some "" ∨ isAuthenticated s = true.
Proof.
  destruct (run_path verifyToken verifyOrgToken s ls)
    as [Hg|tok u Hv Hu|tok o Hv Hu Ho|tok Hv Hu Ho|tok e Hv Hu|tok e Hv Hu Ho];
    cbn.
  - split; [intros _|done].
    destruct (ls !! "token") as [t|]; [|by left].
    destruct (isAuthenticated s); [by eauto|].
    cbn in Hg. rewrite andb_true_r in Hg. apply negb_false_iff in Hg.
    apply String.eqb_eq in Hg as ->. by eauto.
  - destruct Hv as (Hstored & Hpresent & Hfresh). split; [done|].
    rewrite Hstored, Hfresh. naive_solver.
  - destruct Hv as (Hstored & Hpresent & Hfresh). split; [done|].
    rewrite Hstored, Hfresh. naive_solver.
  - destruct Hv as (Hstored & Hpresent & Hfresh). split; [done|].
    rewrite Hstored, Hfresh. naive_solver.
  - destruct Hv as (Hstored & Hpresent & Hfresh). split; [done|].
    rewrite Hstored, Hfresh. naive_solver.
  - destruct Hv as (Hstored & Hpresent & Hfresh). split; [done|].
    rewrite Hstored, Hfresh. naive_solver.
Qed.

(** X4: the console gets a line exactly when a request threw; it is
    then a single line, about the last request of the run, carrying its
    error.  Acceptance and the both-[null] rejection log nothing. *)
Theorem error_logged_iff_rejected verifyToken verifyOrgToken s ls :
  let w := (run verifyToken verifyOrgToken s ls).1 in
  (console w = [] ↔ existsb rejected (network w) = false) ∧
  (∀ line, line ∈ console w →
     ∃ c e, last (network w) = Some c ∧ call_response c = Rejected e ∧
            console w = ["Auth initialization failed: " +:+ e]).
Proof.
  cbv zeta.
  destruct (run_path verifyToken verifyOrgToken s ls)
    as [Hg|tok u Hv Hu|tok o Hv Hu Ho|tok Hv Hu Ho|tok e Hv Hu|tok e Hv Hu Ho];
    cbn; (split; [done|]); intros line Hline;
    try (by inversion Hline); by eexists _, _.
Qed.

(** X5: a token that a run failed to resolve is not verified again:
    any later bootstrap over the storage that run left, from any
    session and with any endpoints, issues no request. *)
Theorem rejected_token_not_retried
    verifyToken verifyOrgToken verifyToken' verifyOrgToken' s s' ls :
  unresolved (network (run verifyToken verifyOrgToken s ls).1) = true →
  network (run verifyToken' verifyOrgToken' s'
               (localStorage (run verifyToken verifyOrgToken s ls).1)).1 = [].
Proof.
  intros Hun.
  assert (localStorage (run verifyToken verifyOrgToken s ls).1 !! "token"
          = None) as Hgone.
  { revert Hun.
    destruct (run_path verifyToken verifyOrgToken s ls); cbn;
      try discriminate; intros _; apply lookup_delete_eq. }
  rewrite run_skip; [done|]. by rewrite Hgone.
Qed.

Lemma rejected_token_not_retried_witness :
  unresolved (network (run (λ _, Resolved None) (λ _, Resolved None)
                           initialState tok123).1) = true ∧
  network (run (λ _, Resolved (Some admin7)) (λ _, Resolved (Some org9))
               initialState
               (localStorage (run (λ _, Resolved None) (λ _, Resolved None)
                                  initialState tok123).1)).1 = [].
Proof.
  assert (unresolved (network (run (λ _, Resolved None) (λ _, Resolved None)
                                   initialState tok123).1) = true) as Hun
    by reflexivity.
  exact (conj Hun
    (rejected_token_not_retried
       (λ _, Resolved None) (λ _, Resolved None)
       (λ _, Resolved (Some admin7)) (λ _, Resolved (Some org9))
       initialState initialState tok123 Hun)).
Defined.

(** * Further properties of the landing dispatch *)



(** X8: removing the password at acceptance changes neither the route
    the user lands on nor whether the project view offers the edit
    controls: both read [role] and [id] only. *)
Theorem stripping_keeps_role_and_id (u : UserObj)
    (project : ProjectDetailsView.Project) :
  landingRoute (role_of (withoutPassword u)) = landingRoute (role_of u) ∧
  ProjectDetailsView.canEdit (Some (withoutPassword u)) project
    = ProjectDetailsView.canEdit (Some u) project.
Proof.
  unfold ProjectDetailsView.canEdit, role_of, withoutPassword.
  by rewrite !lookup_delete_ne.
Qed.

(** * [AddMembersComponent] *)

Section AddMembersFacts.

Import AddMembers.

Implicit Types (u v : User) (sel : list User) (org : Organisation).

Lemma some_selected u sel :
  existsb (λ v, (id v =? id u)%Z) sel = true ↔ id u ∈ ids sel.
Proof.
  rewrite existsb_exists. unfold ids. rewrite list_elem_of_fmap. split.
  - intros (v & Hin & Heq). apply Z.eqb_eq in Heq.
    exists v. split; [done|]. by apply list_elem_of_In.
  - intros (v & Heq & Hin). exists v. split; [by apply list_elem_of_In|].
    by apply Z.eqb_eq.
Qed.

Lemma none_selected u sel :
  existsb (λ v, (id v =? id u)%Z) sel = false ↔ id u ∉ ids sel.
Proof.
  rewrite <-some_selected. by destruct (existsb _ sel).
Qed.

Lemma ids_without i sel :
  ids (List.filter (λ v, negb (id v =? i)%Z) sel)
  = List.filter (λ j, negb (j =? i)%Z) (ids sel).
Proof.
  unfold ids. induction sel as [|v sel IH]; [done|]. cbn.
  destruct (id v =? i)%Z; cbn; by rewrite IH.
Qed.

Lemma elem_of_without (i j : Z) (l : list Z) :
  j ∈ List.filter (λ k, negb (k =? i)%Z) l ↔ j ≠ i ∧ j ∈ l.
Proof.
  rewrite list_elem_of_In, filter_In, <-list_elem_of_In.
  rewrite negb_true_iff, Z.eqb_neq. tauto.
Qed.

Lemma without_absent (i : Z) (l : list Z) :
  i ∉ l → List.filter (λ k, negb (k =? i)%Z) l = l.
Proof.
  induction l as [|j l IH]; [done|]. intros Hnot. cbn.
  apply not_elem_of_cons in Hnot as [Hne Hnot].
  destruct (Z.eqb_spec j i); [congruence|]. cbn. by rewrite IH.
Qed.

Lemma users_without_absent u sel :
  id u ∉ ids sel → List.filter (λ v, negb (id v =? id u)%Z) sel = sel.
Proof.
  induction sel as [|v sel IH]; [done|]. cbn. intros Hnot.
  apply not_elem_of_cons in Hnot as [Hne Hnot].
  destruct (Z.eqb_spec (id v) (id u)); [congruence|]. cbn. by rewrite IH.
Qed.

(** X9: clicking a user flips whether their id is selected and leaves
    every other id as it was. *)
Theorem toggle_flips_only_the_clicked_id u sel (i : Z) :
  i ∈ ids (toggleUserSelection u sel) ↔
  if decide (i = id u) then id u ∉ ids sel else i ∈ ids sel.
Proof.
  unfold toggleUserSelection.
  destruct (existsb _ sel) eqn:Hsome; cbv iota.
  - apply some_selected in Hsome. rewrite ids_without, elem_of_without.
    case_decide; subst; tauto.
  - apply none_selected in Hsome. unfold ids. rewrite fmap_app. cbn.
    rewrite elem_of_app, list_elem_of_singleton.
    case_decide; subst; [tauto|]. fold (ids sel). tauto.
Qed.

(** X10: clicking the same user twice gives the selection back when
    the user was not selected; when the user was, every entry with that
    id is dropped and the clicked record is appended at the end. *)
Theorem toggle_twice u sel :
  toggleUserSelection u (toggleUserSelection u sel) =
  if bool_decide (id u ∈ ids sel)
  then (List.filter (λ v, negb (id v =? id u)%Z) sel ++ [u])%list
  else sel.
Proof.
  unfold toggleUserSelection at 2.
  destruct (existsb _ sel) eqn:Hsome; cbv iota.
  - apply some_selected in Hsome. rewrite bool_decide_eq_true_2 by done.
    unfold toggleUserSelection.
    assert (id u ∉ ids (List.filter (λ v, negb (id v =? id u)%Z) sel))
      as Hgone.
    { rewrite ids_without, elem_of_without. tauto. }
    apply none_selected in Hgone. by rewrite Hgone.
  - apply none_selected in Hsome. rewrite bool_decide_eq_false_2 by done.
    unfold toggleUserSelection.
    assert (id u ∈ ids (sel ++ [u])%list) as Hin.
    { unfold ids. rewrite fmap_app. set_solver. }
    apply some_selected in Hin. rewrite Hin.
    rewrite List.filter_app. cbn. rewrite Z.eqb_refl. cbn.
    rewrite app_nil_r. by apply users_without_absent.
Qed.

(** X11: taking a member out never leaves the id in the list, keeps
    every other member in their order, does nothing when the id is not
    a member, and gives the empty list when the organisation has no
    [members] property. *)
Theorem members_without_spec org (userId : Z) :
  (userId ∉ membersWithout org userId) ∧
  (∀ i, i ≠ userId → (i ∈ membersWithout org userId ↔ i ∈ members_of org)) ∧
  membersWithout org userId `sublist_of` members_of org ∧
  (userId ∉ members_of org → membersWithout org userId = members_of org).
Proof.
  unfold membersWithout, members_of.
  destruct (members org) as [ms|]; cbn.
  - split; [rewrite elem_of_without; tauto|].
    split; [intros i Hi; rewrite elem_of_without; tauto|].
    split; [|apply without_absent].
    induction ms as [|j ms IH]; [done|]. cbn.
    destruct (j =? userId)%Z; cbn; by constructor.
  - split; [by intros ?%elem_of_nil|]. by repeat split.
Qed.

(** X12: adding a selection and then removing a user who was not a
    member before gives the old members followed by the rest of the
    selection; for a selection of that one user, the old members
    exactly. *)
Theorem add_then_remove org sel (i : Z) :
  i ∉ members_of org →
  membersWithout
    (mkOrganisation (org_organisationId org) (ownerId org)
                    (Some (membersWith org sel)) (org_username org)) i
  = (members_of org ++ List.filter (λ j, negb (j =? i)%Z) (ids sel))%list.
Proof.
  intros Hnot. unfold membersWithout, membersWith. cbn.
  rewrite List.filter_app. by rewrite without_absent.
Qed.

Lemma add_then_remove_witness :
  (4%Z ∉ members_of acme) ∧
  membersWithout
    (mkOrganisation (org_organisationId acme) (ownerId acme)
                    (Some (membersWith acme [ada; bob])) (org_username acme))
    4
  = (members_of acme
     ++ List.filter (λ j, negb (j =? 4)%Z) (ids [ada; bob]))%list.
Proof.
  assert (4%Z ∉ members_of acme) as Hnot by (by vm_compute; set_solver).
  exact (conj Hnot (add_then_remove acme [ada; bob] 4 Hnot)).
Defined.

Ltac run_members :=
  unfold handleSearchUsers, addMembers, addMembersFn, addMembersSuccess,
    addMembersError, removeMember, removeMemberFn, removeMemberSuccess,
    removeMemberError, mutate, finally, catching, request, request_all,
    emit, setSearchEmail, setFilteredUsers, setSelectedUsers,
    setIsSearching, start, mbind, Eff_bind, mret, Eff_ret; cbn.

Lemma eligible_spec org u :
  eligible org u = true ↔
  id u ≠ ownerId org ∧ role u ≠ "Admin" ∧ id u ∉ members_of org.
Proof.
  unfold eligible. rewrite !andb_true_iff, !negb_true_iff.
  rewrite Z.eqb_neq, String.eqb_neq, bool_decide_eq_false. tauto.
Qed.



(** What every state of an interaction satisfies. *)

Lemma services_updates (o : option Z) (f : User → Completion unit) sel :
  List.filter is_service (map fst (map (λ u, (UpdateUser (id u) o, f u)) sel))
  = map (λ u, UpdateUser (id u) o) sel.
Proof.
  induction sel as [|u sel IH]; [done|]. cbn. by rewrite IH.
Qed.

Lemma settle_all_completed (l : list (Completion unit)) :
  completed (settle_all l) = forallb completed l.
Proof.
  unfold settle_all. induction l as [|[[]|e] l IH]; cbn; done.
Qed.

Lemma settle_all_updates (g : User → Effect) (f : User → Completion unit) sel :
  completed (settle_all (map snd (map (λ u, (g u, f u)) sel)))
  = forallb (λ u, completed (f u)) sel.
Proof.
  rewrite settle_all_completed.
  induction sel as [|u sel IH]; [done|]. cbn. by rewrite IH.
Qed.

Section Searching.

Variable toLowerCase : string → string.
Variable allUsers : list User.

Lemma wanted_eligible org q u :
  wanted toLowerCase org q u
  = includes (toLowerCase (email u)) (toLowerCase q) && eligible org u.
Proof. unfold wanted, eligible. by rewrite <-!andb_assoc. Qed.

(** X13: the search results are the users of [allUsers], in their
    order, whose lower-cased email contains the lower-cased query and
    who are not the owner, not an admin and not a member yet; none of
    these three is ever listed. *)
Theorem search_results_spec org q :
  searchUsers toLowerCase allUsers org q `sublist_of` allUsers ∧
  ∀ u, u ∈ searchUsers toLowerCase allUsers org q ↔
       u ∈ allUsers ∧
       includes (toLowerCase (email u)) (toLowerCase q) = true ∧
       id u ≠ ownerId org ∧ role u ≠ "Admin" ∧ id u ∉ members_of org.
Proof.
  unfold searchUsers. split.
  - induction allUsers as [|v l IH]; [done|]. cbn.
    destruct (wanted toLowerCase org q v); by constructor.
  - intros u. rewrite list_elem_of_In, filter_In, <-list_elem_of_In.
    rewrite wanted_eligible, andb_true_iff, eligible_spec. tauto.
Qed.


Section Interacting.

Variable organisation : option Organisation.




End Interacting.

End Searching.

Section Adding.

Variable organisationId : Z.
Variable organisation : option Organisation.
Variable onAddMembers : bool.
Variable updateOrg : Z → list Z → Completion unit.
Variable updateUser : Z → option Z → Completion unit.

(** X16: adding calls no service without an organisation or with an
    empty selection.  Otherwise it calls [updateOrg] once, with the
    current members followed by the selected ids, and only when that
    call succeeds [updateUser] once per selected user, in order, each
    with the organisation's id, whether or not some of them fail. *)
Theorem add_members_service_calls st :
  services (effects (addMembers organisationId organisation onAddMembers
                                updateOrg updateUser (start st)).1)
  = match organisation, selectedUsers st with
    | Some org, _ :: _ =>
        UpdateOrg (org_organisationId org)
                  (membersWith org (selectedUsers st))
        :: (if completed (updateOrg (org_organisationId org)
                                    (membersWith org (selectedUsers st)))
            then map (λ u, UpdateUser (id u) (Some (org_organisationId org)))
                     (selectedUsers st)
            else [])
    | _, _ => []
    end.
Proof.
  run_members. destruct organisation as [org|].
  2: { by destruct onAddMembers. }
  destruct (selectedUsers st) as [|u sel] eqn:Hsel; cbn.
  { by destruct onAddMembers. }
  destruct (updateOrg _ _) as [[]|e]; cbn; [|done].
  destruct (settle_all _) as [[]|e]; cbn; try destruct onAddMembers; cbn;
    unfold services; cbn; rewrite ?List.filter_app, services_updates; cbn;
    by rewrite ?app_nil_r.
Qed.

(** X17: adding ends in one of two ways.  When every service call
    succeeded (or none was needed) the selection, the query and the
    results are cleared, the caller is told who was added and the last
    effect is the success toast.  When [updateOrg] or any [updateUser]
    failed the component state is exactly as before, nothing is
    invalidated, the caller is not told, and the last effect is the
    error toast, even though the organisation may already list the new
    members. *)
Theorem add_members_outcome st :
  let w' := (addMembers organisationId organisation onAddMembers
                        updateOrg updateUser (start st)).1 in
  if match organisation, selectedUsers st with
     | Some org, _ :: _ =>
         completed (updateOrg (org_organisationId org)
                              (membersWith org (selectedUsers st))) &&
         forallb (λ u, completed (updateUser (id u)
                                    (Some (org_organisationId org))))
                 (selectedUsers st)
     | _, _ => true
     end
  then
    state w' = mkState (isPopupOpen st) "" [] [] (isSearching st) ∧
    last (effects w') = Some (ToastSuccess "Members added successfully!") ∧
    (OnAddMembers (selectedUsers st) ∈ effects w' ↔ onAddMembers = true)
  else
    state w' = st ∧
    last (effects w') = Some (ToastError "Failed to add members!") ∧
    (∀ e, e ∈ effects w' →
          is_service e = true ∨ e = ToastError "Failed to add members!").
Proof.
  cbv zeta. unfold addMembers, mutate, addMembersFn, start.
  cbn [state selectedUsers].
  destruct organisation as [org|].
  2: { run_members. destruct onAddMembers; cbn; repeat split; set_solver. }
  destruct (selectedUsers st) as [|u0 sel0] eqn:Hsel.
  { run_members. rewrite Hsel.
    destruct onAddMembers; cbn; repeat split; set_solver. }
  rewrite <-Hsel.
  assert ((length (selectedUsers st) =? 0)%nat = false) as ->
    by by rewrite Hsel.
  unfold mbind, Eff_bind, request, request_all. cbn [state effects].
  destruct (updateOrg _ _) as [[]|e] eqn:Horg; cbn [completed andb].
  - rewrite <-(settle_all_updates
                 (λ u, UpdateUser (id u) (Some (org_organisationId org)))).
    set (calls := map fst _).
    assert (∀ e, e ∈ calls → is_service e = true) as Hcalls.
    { intros e. unfold calls. rewrite <-list_fmap_compose.
      intros (u & -> & _)%list_elem_of_fmap. done. }
    assert (OnAddMembers (selectedUsers st) ∉ calls) as Hnot.
    { intros Hin. by apply Hcalls in Hin. }
    clearbody calls.
    destruct (settle_all _) as [[]|e] eqn:Hall; cbn [completed]; run_members.
    + split; [by destruct onAddMembers|].
      split; [destruct onAddMembers; cbn; by rewrite ?last_cons, last_snoc|].
      destruct onAddMembers; cbn; set_unfold; naive_solver.
    + split; [done|]. split; [by rewrite ?last_cons, last_snoc|].
      intros e'. set_unfold. naive_solver.
  - run_members. split; [done|]. split; [done|].
    intros e'. set_unfold. naive_solver.
Qed.

End Adding.

Section Removing.

Variable organisationId : Z.
Variable organisation : option Organisation.
Variable updateOrg : Z → list Z → Completion unit.
Variable updateUser : Z → option Z → Completion unit.

(** X18: removing a member never changes the component state.  With
    an organisation it calls [updateOrg] with the member list without
    that id and, only when that call succeeded, [updateUser] clearing
    the user's organisation; the success toast is the last effect when
    both succeeded, and also when there was no organisation and nothing
    was called; otherwise the error toast is. *)
Theorem remove_member_effects st (userId : Z) :
  let w' := (removeMember organisationId organisation updateOrg updateUser
                          userId (start st)).1 in
  state w' = st ∧
  services (effects w')
    = match organisation with
      | Some org =>
          UpdateOrg (org_organisationId org) (membersWithout org userId)
          :: (if completed (updateOrg (org_organisationId org)
                                      (membersWithout org userId))
              then [UpdateUser userId None] else [])
      | None => []
      end ∧
  last (effects w')
    = Some (if match organisation with
               | Some org =>
                   completed (updateOrg (org_organisationId org)
                                        (membersWithout org userId)) &&
                   completed (updateUser userId None)
               | None => true
               end
            then ToastSuccess "Member removed successfully!"
            else ToastError "Failed to remove member!").
Proof.
  run_members. destruct organisation as [org|]; cbn; [|done].
  destruct (updateOrg _ _) as [[]|e]; cbn; [|done].
  by destruct (updateUser _ _) as [[]|e].
Qed.

End Removing.




Example clicked_selects_ada : selectedUsers clicked = [ada].
Proof. reflexivity. Qed.

End AddMembersFacts.

(** * [ProjectDetailsView] *)

Section ProjectDetailsViewFacts.

Import ProjectDetailsView.

Ltac run_view :=
  unfold handleSave, handleRemoveTeam, fetchProjectData, finally, catching,
    request, toast, console_error, setIsLoading, setIsEditing,
    setProjectTeams, start, mbind, Eff_bind, mret, Eff_ret; cbn.

Lemma key_name_inj k1 k2 : key_name k1 = key_name k2 → k1 = k2.
Proof. by destruct k1, k2. Qed.

Lemma key_name_not_teams k : key_name k ≠ "teams".
Proof. by destruct k. Qed.

Lemma writes_snoc evs ev :
  writes (evs ++ [ev])
  = (writes evs ++ match ev with Change k v => [(k, v)] | _ => [] end)%list.
Proof. unfold writes. rewrite omap_app. by destruct ev. Qed.

Lemma last_write_snoc k ws k' (v : string) :
  last_write k (ws ++ [(k', v)])
  = if decide (k' = k) then Some v else last_write k ws.
Proof.
  unfold last_write. rewrite omap_app. cbn.
  case_decide; [by rewrite last_snoc|by rewrite app_nil_r].
Qed.

Lemma buffer_after_events st evs :
  editedProject (foldl handle st evs)
  = foldl write (editedProject st) (writes evs).
Proof.
  induction evs as [|ev evs IH] using rev_ind; [done|].
  rewrite foldl_app, writes_snoc, foldl_app. cbn.
  destruct ev; cbn; rewrite ?app_nil_r; try done.
  unfold write at 1. cbn. by rewrite <-IH.
Qed.

(** X19: the edit buffer only ever accumulates: after any sequence of
    clicks and keystrokes it is the buffer it started from with every
    typed change written over it in order.  Leaving edit mode, by the
    cancel cross or by Discard, reverts nothing; each key holds the
    last value typed for it, as a string, and [teams] is never
    written. *)
Theorem edits_survive_discard st evs (k : EditKey) :
  editedProject (foldl handle st evs)
    = foldl write (editedProject st) (writes evs) ∧
  editedProject (foldl handle st evs) !! key_name k
    = match last_write k (writes evs) with
      | Some v => Some (Str v)
      | None => editedProject st !! key_name k
      end ∧
  editedProject (foldl handle st evs) !! "teams"
    = editedProject st !! "teams".
Proof.
  split; [apply buffer_after_events|]. rewrite buffer_after_events.
  induction evs as [|ev evs [IHk IHt]] using rev_ind; [done|].
  rewrite writes_snoc, foldl_app.
  destruct ev as [| | |k' v| |]; cbn; rewrite ?app_nil_r; try done.
  unfold write at 1 3. cbn. split.
  - rewrite last_write_snoc. case_decide as Hk.
    + subst. by rewrite lookup_insert_eq.
    + rewrite lookup_insert_ne; [done|].
      intros Heq. by apply key_name_inj in Heq.
  - rewrite lookup_insert_ne; [done|]. apply key_name_not_teams.
Qed.

Section Served.

Variable project : Project.
Variable getProjectTeams : Z → Completion (list Team).

(** X20: loading the teams always completes normally with the loading
    flag off, after exactly one request, and touches neither the edit
    mode nor the edit buffer.  When the request succeeds the team list
    is replaced and nothing is shown; when it fails the old list stays
    and one error toast and one console line are written. *)
Theorem fetch_always_ends_loading st :
  let r := fetchProjectData project getProjectTeams (start st) in
  r.2 = Normal tt ∧
  isLoading (view r.1) = false ∧
  isEditing (view r.1) = isEditing st ∧
  editedProject (view r.1) = editedProject st ∧
  selectedTeam (view r.1) = selectedTeam st ∧
  requests r.1 = [GetProjectTeams (projectId project)] ∧
  match getProjectTeams (projectId project) with
  | Normal teams =>
      projectTeams (view r.1) = teams ∧ toasts r.1 = [] ∧ console r.1 = []
  | Throw e =>
      projectTeams (view r.1) = projectTeams st ∧
      toasts r.1 = [toast_error "Error fetching project data"] ∧
      console r.1 = ["Error fetching project data: " +:+ e]
  end.
Proof. run_view. by destruct (getProjectTeams _). Qed.

Section Saving.

Variable updateProject : Z → gmap string Field → Completion unit.

(** X21: saving always completes normally.  When the update fails the
    view is exactly as before (still in edit mode, buffer kept), the
    teams are not reloaded and one error toast is shown.  When it
    succeeds the teams are reloaded and edit mode is left, also when
    that reload fails; the only toast is then the one of the failed
    reload. *)
Theorem save_outcome st :
  let r := handleSave project getProjectTeams updateProject (start st) in
  r.2 = Normal tt ∧
  match updateProject (projectId project) (editedProject st) with
  | Throw e =>
      view r.1 = st ∧
      requests r.1 = [UpdateProject (projectId project) (editedProject st)] ∧
      toasts r.1 = [toast_error "Error updating project"]
  | Normal _ =>
      isEditing (view r.1) = false ∧
      isLoading (view r.1) = false ∧
      editedProject (view r.1) = editedProject st ∧
      requests r.1 = [UpdateProject (projectId project) (editedProject st);
                      GetProjectTeams (projectId project)] ∧
      toasts r.1 = (if completed (getProjectTeams (projectId project))
                    then []
                    else [toast_error "Error fetching project data"])
  end.
Proof.
  run_view. destruct (updateProject _ _) as [[]|e]; cbn.
  - by destruct (getProjectTeams _).
  - by destruct st.
Qed.

(** X22: what Save sends is the copy of the project taken at the first
    render with every change typed since written over it, including the
    changes typed before a Discard. *)
Theorem save_sends_every_typed_change evs :
  head (requests (handleSave project getProjectTeams updateProject
                    (start (foldl handle (initial project) evs))).1)
  = Some (UpdateProject (projectId project)
            (foldl write (initialEdit project) (writes evs))).
Proof.
  pose proof (buffer_after_events (initial project) evs) as Heq.
  change (editedProject (initial project)) with (initialEdit project) in Heq.
  rewrite <-Heq. run_view. destruct (updateProject _ _) as [[]|e]; cbn; [|done].
  by destruct (getProjectTeams _).
Qed.

End Saving.

Section RemovingTeam.

Variable removeTeamFromProject : Z → Z → Completion unit.

(** X23: removing a team always completes normally and leaves the
    edit mode and buffer alone.  When the removal fails nothing is
    reloaded and one error toast is shown.  When it succeeds the teams
    are reloaded and the success toast is shown last, also when the
    reload failed: the list then still shows the old teams, after an
    error toast and before the success toast. *)
Theorem remove_team_outcome st (teamId : Z) :
  let r := handleRemoveTeam project getProjectTeams removeTeamFromProject
                            teamId (start st) in
  r.2 = Normal tt ∧
  isEditing (view r.1) = isEditing st ∧
  editedProject (view r.1) = editedProject st ∧
  match removeTeamFromProject (projectId project) teamId with
  | Throw e =>
      view r.1 = st ∧
      requests r.1 = [RemoveTeamFromProject (projectId project) teamId] ∧
      toasts r.1 = [toast_error "Error removing team"]
  | Normal _ =>
      requests r.1 = [RemoveTeamFromProject (projectId project) teamId;
                      GetProjectTeams (projectId project)] ∧
      isLoading (view r.1) = false ∧
      match getProjectTeams (projectId project) with
      | Normal teams =>
          projectTeams (view r.1) = teams ∧
          toasts r.1 = [toast_success "Team removed successfully"]
      | Throw _ =>
          projectTeams (view r.1) = projectTeams st ∧
          toasts r.1 = [toast_error "Error fetching project data";
                        toast_success "Team removed successfully"]
      end
  end.
Proof.
  run_view. destruct (removeTeamFromProject _ _) as [[]|e]; cbn.
  - by destruct (getProjectTeams _).
  - by destruct st.
Qed.

End RemovingTeam.

End Served.

End ProjectDetailsViewFacts.
